(** * membarrier.c : the JNI binding [MemBarrier.flushAllThreads]

    The native method issues the Linux [membarrier] system call and maps
    its outcome to a [jint].  The C function talks to its environment in
    two ways: through [syscall] and through the [errno] lvalue.  It is
    embedded as a term of a small effect language ([Prog]) whose nodes are
    the operations a JNI native method has at hand, and which is run
    against an arbitrary kernel ([Kernel]), a state-passing handler.
    Calls from several threads are interleavings of the steps of such
    terms. *)

From Stdlib Require Import ZArith List Lia Bool.
Import ListNotations.
Open Scope Z_scope.

(** ** C integers

    [int] and [jint] are 32-bit two's complement integers, carried by [Z]
    with the wrap-around written out. *)

Definition INT_MIN : Z := - 2 ^ 31.
Definition INT_MAX : Z := 2 ^ 31 - 1.

Definition in_int (z : Z) : Prop := INT_MIN <= z <= INT_MAX.

Definition in_intb (z : Z) : bool := (INT_MIN <=? z) && (z <=? INT_MAX).

(** Reduction modulo 2^32 into the signed range. *)
Definition wrap_int (z : Z) : Z := (z + 2 ^ 31) mod 2 ^ 32 - 2 ^ 31.

(** [int ret = syscall(...)]: what [syscall] hands back is stored in an
    [int].  A value of type [int] is kept as it is; a wider one is reduced
    modulo 2^32. *)
Definition int_of_long (r : Z) : Z := wrap_int r.

(** Unary minus on [int], as in [-errno], in two's complement: the exact
    opposite but for [INT_MIN], which it maps to itself. *)
Definition int_neg (e : Z) : Z := wrap_int (- e).

(** The opposite of [e] does not fit an [int]. *)
Definition int_neg_overflows (e : Z) : bool := negb (in_intb (- e)).

Definition jint : Type := Z.

(** ** What a native method can do *)

(** Events a run leaves behind, in order. *)
Inductive event : Type :=
| EvSyscall (number : Z) (args : list Z)
| EvErrno
| EvThrow
| EvAbort.

(** Programs: a tree of requests to the environment.  [Syscall] is the libc
    [syscall] function, [Errno] a read of the [errno] lvalue, [ThrowNew]
    the JNI call that leaves a Java exception pending, [AbortProcess] the
    end of the process ([abort], [exit], a fatal JNI error). *)
Inductive Prog (A : Type) : Type :=
| Ret (a : A)
| Syscall (number : Z) (args : list Z) (k : Z -> Prog A)
| Errno (k : Z -> Prog A)
| ThrowNew (k : Prog A)
| AbortProcess.

Arguments Ret {A} a.
Arguments Syscall {A} number args k.
Arguments Errno {A} k.
Arguments ThrowNew {A} k.
Arguments AbortProcess {A}.

Fixpoint bind {A B : Type} (p : Prog A) (f : A -> Prog B) : Prog B :=
  match p with
  | Ret a => f a
  | Syscall n args k => Syscall n args (fun r => bind (k r) f)
  | Errno k => Errno (fun e => bind (k e) f)
  | ThrowNew k => ThrowNew (bind k f)
  | AbortProcess => AbortProcess
  end.

Definition syscall (number : Z) (args : list Z) : Prog Z :=
  Syscall number args Ret.

Definition errno : Prog Z := Errno Ret.

Declare Scope prog_scope.
Delimit Scope prog_scope with prog.
Notation "x <- p ;; q" := (bind p (fun x => q))
  (at level 61, p at next level, right associativity) : prog_scope.

(** ** The kernel

    The environment of a run: a state [W] (the process as the kernel and
    libc see it, [errno] included), the effect of a system call on it
    together with the value [syscall] returns, and the current value of
    [errno]. *)
Record Kernel (W : Type) : Type := {
  do_syscall : Z -> list Z -> W -> Z * W;
  read_errno : W -> Z
}.

Arguments do_syscall {W} _ _ _ _.
Arguments read_errno {W} _ _.

(** How a run ends. *)
Inductive completion (A : Type) : Type :=
| Returned (a : A)
| Terminated.

Arguments Returned {A} a.
Arguments Terminated {A}.

Record run_result (W A : Type) : Type := {
  run_completion : completion A;
  run_pending_exception : bool;
  run_trace : list event;
  run_world : W
}.

Arguments run_completion {W A} _.
Arguments run_pending_exception {W A} _.
Arguments run_trace {W A} _.
Arguments run_world {W A} _.

(** Running a program: [exc] is whether an exception is already pending,
    [tr] the events so far, most recent first. *)
Fixpoint exec {W A : Type} (K : Kernel W) (p : Prog A)
    (exc : bool) (tr : list event) (w : W) : run_result W A :=
  match p with
  | Ret a => {| run_completion := Returned a;
               run_pending_exception := exc;
               run_trace := rev tr;
               run_world := w |}
  | Syscall n args k =>
      let (r, w') := do_syscall K n args w in
      exec K (k r) exc (EvSyscall n args :: tr) w'
  | Errno k => exec K (k (read_errno K w)) exc (EvErrno :: tr) w
  | ThrowNew k => exec K k true (EvThrow :: tr) w
  | AbortProcess => {| run_completion := Terminated;
               run_pending_exception := exc;
               run_trace := rev (EvAbort :: tr);
               run_world := w |}
  end.

Definition run {W A : Type} (K : Kernel W) (p : Prog A) (w : W)
  : run_result W A :=
  exec K p false [] w.

Definition is_syscall (ev : event) : bool :=
  match ev with
  | EvSyscall _ _ => true
  | _ => false
  end.

Definition is_throw (ev : event) : bool :=
  match ev with
  | EvThrow => true
  | _ => false
  end.

Definition syscalls_issued (tr : list event) : nat :=
  length (filter is_syscall tr).

(** ** Threads

    Several native threads of one process, each running a program.  A
    thread advances by one request at a time; the requests of different
    threads interleave in the order a schedule gives.  The kernel serves
    each thread through a handler of its own ([tid -> Kernel W]) on the
    world they share. *)

Definition tid : Type := nat.

(** One request of a program, if it has one left. *)
Definition step_prog {W A : Type} (K : Kernel W) (p : Prog A) (w : W)
  : option (Prog A * event * W) :=
  match p with
  | Ret _ => None
  | Syscall n args k =>
      let (r, w') := do_syscall K n args w in
      Some (k r, EvSyscall n args, w')
  | Errno k => Some (k (read_errno K w), EvErrno, w)
  | ThrowNew k => Some (k, EvThrow, w)
  | AbortProcess => None
  end.

Record process (W A : Type) : Type := {
  pool : tid -> Prog A;
  world : W;
  log : list (tid * event)
}.

Arguments pool {W A} _ _.
Arguments world {W A} _.
Arguments log {W A} _.

(** Thread [t] takes its next step; a thread with nothing left to do
    leaves the process as it is. *)
Definition step_thread {W A : Type} (TK : tid -> Kernel W) (t : tid)
    (st : process W A) : process W A :=
  match step_prog (TK t) (pool st t) (world st) with
  | None => st
  | Some (p', ev, w') =>
      {| pool := fun t' => if Nat.eqb t' t then p' else pool st t';
         world := w';
         log := log st ++ [(t, ev)] |}
  end.

Fixpoint run_schedule {W A : Type} (TK : tid -> Kernel W)
    (sched : list tid) (st : process W A) : process W A :=
  match sched with
  | [] => st
  | t :: rest => run_schedule TK rest (step_thread TK t st)
  end.

(** The events of thread [t] in a log, in order. *)
Definition events_of (t : tid) (l : list (tid * event)) : list event :=
  map snd (filter (fun te => Nat.eqb (fst te) t) l).

(** [errno] is a per-thread object: a system call made by one thread
    leaves the [errno] of every other thread as it was. *)
Definition errno_thread_local {W : Type} (TK : tid -> Kernel W) : Prop :=
  forall (t t' : tid) (n : Z) (args : list Z) (w : W),
    t <> t' ->
    read_errno (TK t) (snd (do_syscall (TK t') n args w)) =
    read_errno (TK t) w.

(** ** A kernel that follows a script

    Each system call takes the next entry [(r, e)] of the script: it
    returns [r] and leaves [errno] at [e].  With the script used up the call
    returns [0] and leaves [errno] alone. *)
Record scripted : Type := {
  cur_errno : Z;
  script : list (Z * Z)
}.

Definition scripted_kernel : Kernel scripted := {|
  do_syscall := fun _ _ w =>
    match script w with
    | [] => (0, w)
    | (r, e) :: rest => (r, {| cur_errno := e; script := rest |})
    end;
  read_errno := cur_errno
|}.

(** The same for threads: [errno] is kept per thread, the script is
    shared. *)
Record scripted_threads : Type := {
  errno_of : tid -> Z;
  shared_script : list (Z * Z)
}.

Definition scripted_thread_kernel (t : tid) : Kernel scripted_threads := {|
  do_syscall := fun _ _ w =>
    match shared_script w with
    | [] => (0, w)
    | (r, e) :: rest =>
        (r, {| errno_of := fun t' => if Nat.eqb t' t then e else errno_of w t';
               shared_script := rest |})
    end;
  read_errno := fun w => errno_of w t
|}.

(** Were [errno] one object for the whole process, every thread would be
    served by the same handler. *)
Definition process_wide_errno_kernel (t : tid) : Kernel scripted :=
  scripted_kernel.

(** A fresh process ([errno] is [0]) facing the given script. *)
Definition facing (l : list (Z * Z)) : scripted :=
  {| cur_errno := 0; script := l |}.

Definition threads_facing (l : list (Z * Z)) : scripted_threads :=
  {| errno_of := fun _ => 0; shared_script := l |}.

(** [__NR_membarrier] and [MEMBARRIER_CMD_SHARED] on x86-64 Linux, and
    two error numbers of [<errno.h>]. *)
Definition x86_64_SYS_membarrier : Z := 324.
Definition linux_MEMBARRIER_CMD_SHARED : Z := 1.
Definition EPERM : Z := 1.
Definition ENOSYS : Z := 38.

Section MemBarrier.

(** Supplied by the system headers: the number of the [membarrier] system
    call ([<sys/syscall.h>]), the command ([<linux/membarrier.h>]) and the
    JNI handle types ([<jni.h>]). *)
Variables SYS_membarrier MEMBARRIER_CMD_SHARED : Z.
Variables JNIEnv jclass : Type.

Local Open Scope prog_scope.

Definition Java_nativecode_MemBarrier_flushAllThreads
    (env : JNIEnv) (clazz : jclass) : Prog jint :=
  r <- syscall SYS_membarrier [MEMBARRIER_CMD_SHARED; 0] ;;
  let ret := int_of_long r in
  if ret =? -1 then
    e <- errno ;;
    Ret (int_neg e)
  else
    Ret ret.

(** The one request the native method makes of the kernel. *)
Definition membarrier_call : event :=
  EvSyscall SYS_membarrier [MEMBARRIER_CMD_SHARED; 0].

(** The value a call hands back, as a function of what its own system call
    returned ([r]) and of [errno] after it ([e]). *)
Definition result_of_outcome (r e : Z) : jint :=
  if int_of_long r =? -1 then int_neg e else int_of_long r.

Section Calls.

Context {W : Type} (K : Kernel W).

(** What the kernel answers to one [membarrier] call in world [w]: the
    returned value, [errno] after the call, and the world after it. *)
Definition membarrier_outcome (w : W) : Z * Z * W :=
  let (r, w') := do_syscall K SYS_membarrier [MEMBARRIER_CMD_SHARED; 0] w in
  (r, read_errno K w', w').

(** The answers to [n] such calls in a row. *)
Fixpoint membarrier_outcomes (n : nat) (w : W) : list (Z * Z) * W :=
  match n with
  | O => ([], w)
  | S n' =>
      let '(r, e, w') := membarrier_outcome w in
      let (os, w'') := membarrier_outcomes n' w' in
      ((r, e) :: os, w'')
  end.

(** [n] calls of the native method, one after the other. *)
Fixpoint call_repeatedly (env : JNIEnv) (clazz : jclass) (n : nat) (w : W)
  : list (completion jint) * W :=
  match n with
  | O => ([], w)
  | S n' =>
      let res := run K (Java_nativecode_MemBarrier_flushAllThreads env clazz) w in
      let (cs, w') := call_repeatedly env clazz n' (run_world res) in
      (run_completion res :: cs, w')
  end.

(** Every thread is about to make its call, each with its own [env]. *)
Definition all_calling (envs : tid -> JNIEnv) (clazz : jclass) (w : W)
  : process W jint :=
  {| pool := fun t => Java_nativecode_MemBarrier_flushAllThreads (envs t) clazz;
     world := w;
     log := [] |}.

End Calls.

Section ThreadStates.

Context {W : Type} (TK : tid -> Kernel W).
Variables (t : tid) (r e : Z).

(** Thread [t] has made its system call, which returned [-1] and left its
    [errno] at [e], and has [errno] still to read. *)
Definition awaiting_errno (st : process W jint) : Prop :=
  int_of_long r = -1 /\
  pool st t = Errno (fun e0 => Ret (int_neg e0)) /\
  read_errno (TK t) (world st) = e /\
  events_of t (log st) = [membarrier_call].

(** Thread [t] has returned the value its own system call stands for. *)
Definition has_returned (st : process W jint) : Prop :=
  pool st t = Ret (result_of_outcome r e) /\
  events_of t (log st) =
    membarrier_call :: (if int_of_long r =? -1 then [EvErrno] else []).

End ThreadStates.

(** ** Callers *)

(** The answers the convention of [syscall] allows here: a non-negative
    [int], or [-1] with [errno] a positive [int]. *)
Definition conventional_answer (r e : Z) : Prop :=
  0 <= r <= INT_MAX \/ (r = -1 /\ 1 <= e <= INT_MAX).



Section ThreadPhases.

Context {W : Type}.
Variables (envs : tid -> JNIEnv) (clazz : jclass) (t : tid).

(** Where thread [t] stands after [k] turns of its own: about to call;
    then past its system call, with [errno] to read or already back; then
    back for good. *)
Definition thread_phase (k : nat) (st : process W jint) : Prop :=
  match k with
  | O =>
      pool st t = Java_nativecode_MemBarrier_flushAllThreads (envs t) clazz /\
      events_of t (log st) = []
  | S O =>
      events_of t (log st) = [membarrier_call] /\
      (pool st t = Errno (fun e0 => Ret (int_neg e0)) \/
       exists v : jint, pool st t = Ret v)
  | S (S _) =>
      (exists v : jint, pool st t = Ret v) /\
      (events_of t (log st) = [membarrier_call] \/
       events_of t (log st) = [membarrier_call; EvErrno])
  end.

End ThreadPhases.

(** ** Facts on the integer operations *)

Lemma in_intb_spec (z : Z) : in_intb z = true <-> in_int z.
Proof.
  unfold in_intb, in_int.
  rewrite andb_true_iff, !Z.leb_le. reflexivity.
Qed.

Lemma wrap_int_range (z : Z) : in_int (wrap_int z).
Proof.
  unfold in_int, wrap_int, INT_MIN, INT_MAX.
  pose proof (Z.mod_pos_bound (z + 2 ^ 31) (2 ^ 32) ltac:(lia)).
  lia.
Qed.

Lemma wrap_int_id (z : Z) : in_int z -> wrap_int z = z.
Proof.
  unfold in_int, wrap_int, INT_MIN, INT_MAX. intros Hz.
  rewrite Z.mod_small by lia. lia.
Qed.

Lemma int_of_long_id (r : Z) : in_int r -> int_of_long r = r.
Proof. apply wrap_int_id. Qed.

Lemma int_neg_exact (e : Z) : INT_MIN < e <= INT_MAX -> int_neg e = - e.
Proof.
  intros He. apply wrap_int_id.
  unfold in_int, INT_MIN, INT_MAX in *. lia.
Qed.

Lemma int_neg_INT_MIN : int_neg INT_MIN = INT_MIN.
Proof. reflexivity. Qed.

(** ** Steps and runs *)

(** A run is the succession of the steps of the program. *)
Lemma exec_step {W A : Type} (K : Kernel W) (p p' : Prog A) (ev : event)
    (exc : bool) (tr : list event) (w w' : W) :
  step_prog K p w = Some (p', ev, w') ->
  exec K p exc tr w = exec K p' (exc || is_throw ev) (ev :: tr) w'.
Proof.
  destruct p as [a | n args k | k | k |]; cbn; try discriminate.
  - destruct (do_syscall K n args w) as [r0 w0].
    intros H. injection H as <- <- <-. cbn. now rewrite orb_false_r.
  - intros H. injection H as <- <- <-. cbn. now rewrite orb_false_r.
  - intros H. injection H as <- <- <-. cbn. now rewrite orb_true_r.
Qed.

(** ** One call *)

Section OneCall.

Context {W : Type} (K : Kernel W).
Variables (env : JNIEnv) (clazz : jclass).

Local Abbreviation flushAllThreads :=
  (Java_nativecode_MemBarrier_flushAllThreads env clazz).

(** The whole run, from the kernel's answer. *)
Lemma run_flushAllThreads (w : W) (r e : Z) (w' : W) :
  membarrier_outcome K w = (r, e, w') ->
  run K flushAllThreads w =
  {| run_completion := Returned (result_of_outcome r e);
     run_pending_exception := false;
     run_trace := membarrier_call :: (if int_of_long r =? -1 then [EvErrno] else []);
     run_world := w' |}.
Proof.
  unfold membarrier_outcome, run, membarrier_call,
    Java_nativecode_MemBarrier_flushAllThreads, result_of_outcome.
  cbn [bind syscall errno exec].
  destruct (do_syscall K SYS_membarrier [MEMBARRIER_CMD_SHARED; 0] w)
    as [r0 w0] eqn:Hsys.
  intros Heq. injection Heq as -> <- ->.
  destruct (int_of_long r =? -1); reflexivity.
Qed.

Lemma membarrier_outcome_total (w : W) :
  exists r e w', membarrier_outcome K w = (r, e, w').
Proof.
  destruct (membarrier_outcome K w) as [[r e] w'] eqn:H.
  now exists r, e, w'.
Qed.

Lemma result_of_outcome_range (r e : Z) : in_int (result_of_outcome r e).
Proof.
  unfold result_of_outcome, int_of_long, int_neg.
  destruct (_ =? _); apply wrap_int_range.
Qed.

(** C1.  When the system call fails, returning [-1] with [errno] set to
    the error number [e] (a positive [int]), the call returns the value
    [- e]: a negative integer whose absolute value is [e].  It returns
    normally, with no exception pending. *)
Theorem flushAllThreads_failure_negated_errno (w : W) (e : Z) (w' : W) :
  membarrier_outcome K w = (-1, e, w') ->
  1 <= e <= INT_MAX ->
  exists v : jint,
    run_completion (run K flushAllThreads w) = Returned v /\
    run_pending_exception (run K flushAllThreads w) = false /\
    v = - e /\ v < 0 /\ Z.abs v = e.
Proof.
  intros Hk He.
  rewrite (run_flushAllThreads w _ _ _ Hk). cbn.
  exists (- e). unfold result_of_outcome.
  change (int_of_long (-1) =? -1) with true. cbn match.
  rewrite int_neg_exact by (unfold INT_MIN, INT_MAX in *; lia).
  repeat split; lia.
Qed.

(** C2.  When the system call succeeds, returning a non-negative [int]
    [r], the call returns exactly [r], which is non-negative, whatever
    [errno] holds. *)
Theorem flushAllThreads_success_passthrough (w : W) (r e : Z) (w' : W) :
  membarrier_outcome K w = (r, e, w') ->
  0 <= r <= INT_MAX ->
  exists v : jint,
    run_completion (run K flushAllThreads w) = Returned v /\ v = r /\ 0 <= v.
Proof.
  intros Hk Hr.
  rewrite (run_flushAllThreads w _ _ _ Hk). cbn.
  exists r. unfold result_of_outcome.
  rewrite int_of_long_id by (unfold in_int, INT_MIN; lia).
  destruct (Z.eqb_spec r (-1)) as [Heq | _]; [lia |].
  repeat split; lia.
Qed.

(** C3.  Whatever the kernel answers (any returned value, any [errno]),
    the call returns a value, and that value is a 32-bit signed integer;
    no exception is left pending and the run neither throws nor ends the
    process. *)
Theorem flushAllThreads_total (w : W) :
  exists v : jint,
    run_completion (run K flushAllThreads w) = Returned v /\
    in_int v /\
    run_pending_exception (run K flushAllThreads w) = false /\
    ~ In EvThrow (run_trace (run K flushAllThreads w)) /\
    ~ In EvAbort (run_trace (run K flushAllThreads w)).
Proof.
  destruct (membarrier_outcome_total w) as (r & e & w' & Hk).
  rewrite (run_flushAllThreads w _ _ _ Hk). cbn.
  exists (result_of_outcome r e).
  split; [reflexivity |].
  split; [apply result_of_outcome_range |].
  split; [reflexivity |].
  unfold membarrier_call.
  destruct (int_of_long r =? -1); cbn; split; intros H;
    repeat (destruct H as [H | H]; [discriminate H |]); exact H.
Qed.

(** C4.  A call issues exactly one system call: [membarrier] with the
    command [MEMBARRIER_CMD_SHARED] and flags [0].  It is the first event
    of the run, nothing but a read of [errno] can follow it, and the world
    the call leaves is the one that single system call produced. *)
Theorem flushAllThreads_one_membarrier (w : W) :
  filter is_syscall (run_trace (run K flushAllThreads w)) =
    [EvSyscall SYS_membarrier [MEMBARRIER_CMD_SHARED; 0]] /\
  syscalls_issued (run_trace (run K flushAllThreads w)) = 1%nat /\
  (run_trace (run K flushAllThreads w) = [membarrier_call] \/
   run_trace (run K flushAllThreads w) = [membarrier_call; EvErrno]) /\
  run_world (run K flushAllThreads w) =
    snd (do_syscall K SYS_membarrier [MEMBARRIER_CMD_SHARED; 0] w).
Proof.
  destruct (membarrier_outcome_total w) as (r & e & w' & Hk).
  rewrite (run_flushAllThreads w _ _ _ Hk). cbn [run_trace run_world].
  unfold membarrier_outcome in Hk.
  destruct (do_syscall K SYS_membarrier [MEMBARRIER_CMD_SHARED; 0] w)
    as [r0 w0].
  injection Hk as -> _ ->.
  unfold syscalls_issued, membarrier_call.
  destruct (int_of_long r =? -1); cbn; auto.
Qed.

(** C5.  Repeated calls in a row: the result of each call is the image,
    under the fixed function [result_of_outcome], of the kernel's answer to
    that call's own system call, and the world evolves by those system
    calls alone.  Nothing is carried from one call to the next. *)
Theorem flushAllThreads_stateless (n : nat) (w : W) :
  call_repeatedly K env clazz n w =
  (map (fun o => Returned (result_of_outcome (fst o) (snd o)))
       (fst (membarrier_outcomes K n w)),
   snd (membarrier_outcomes K n w)).
Proof.
  revert w. induction n as [| n IH]; intros w.
  - reflexivity.
  - cbn [call_repeatedly membarrier_outcomes].
    destruct (membarrier_outcome K w) as [[r e] w1] eqn:Hk.
    rewrite (run_flushAllThreads w _ _ _ Hk). cbn [run_world run_completion].
    rewrite IH.
    destruct (membarrier_outcomes K n w1) as [os w2].
    reflexivity.
Qed.

(** C6, as amended.  The test is on the value as stored in the [int]
    variable [ret], that is on [int_of_long r] for [r] the value [syscall]
    hands back: [errno] is read if and only if the stored value is [-1];
    then the call returns [-errno] (the [int] negation, which is the exact
    opposite unless [errno] is [INT_MIN]); for any other stored value,
    negative ones included, the call returns the stored value itself and
    the run consists of the system call alone.  For [r] of type [int] the
    stored value is [r]. *)
Theorem flushAllThreads_error_path_iff (w : W) (r e : Z) (w' : W) :
  membarrier_outcome K w = (r, e, w') ->
  (In EvErrno (run_trace (run K flushAllThreads w)) <-> int_of_long r = -1) /\
  (int_of_long r = -1 ->
     run_completion (run K flushAllThreads w) = Returned (int_neg e) /\
     (INT_MIN < e <= INT_MAX -> int_neg e = - e)) /\
  (int_of_long r <> -1 ->
     run_completion (run K flushAllThreads w) = Returned (int_of_long r) /\
     run_trace (run K flushAllThreads w) = [membarrier_call]) /\
  (in_int r -> int_of_long r = r).
Proof.
  intros Hk.
  rewrite (run_flushAllThreads w _ _ _ Hk). cbn [run_trace run_completion].
  unfold result_of_outcome, membarrier_call.
  destruct (Z.eqb_spec (int_of_long r) (-1)) as [Heq | Hne].
  - split; [| split; [| split]].
    + split; [intros _; exact Heq | intros _; cbn; auto].
    + intros _. split; [reflexivity | apply int_neg_exact].
    + intros Hc. contradiction.
    + apply int_of_long_id.
  - split; [| split; [| split]].
    + split; [| intros Hc; contradiction].
      cbn. intros [H | []]. discriminate H.
    + intros Hc. contradiction.
    + intros _. split; reflexivity.
    + apply int_of_long_id.
Qed.

(** C7.  A failing system call ([-1]) that leaves [errno] at [0] makes
    the call return [0], the very completion of a call whose system call
    succeeded with [0] (in any world [w0]).  More
    generally, for [errno] an [int] [e], the result is a strictly negative
    integer of absolute value [e] exactly when [1 <= e], and it is
    non-negative for every [e <= 0] whose negation does not overflow. *)
Theorem flushAllThreads_failure_errno_zero (w : W) (e : Z) (w' : W) :
  membarrier_outcome K w = (-1, e, w') ->
  in_int e ->
  run_completion (run K flushAllThreads w) = Returned (int_neg e) /\
  (e = 0 ->
     run_completion (run K flushAllThreads w) = Returned 0 /\
     forall (w0 : W) (e0 : Z) (w0' : W),
       membarrier_outcome K w0 = (0, e0, w0') ->
       run_completion (run K flushAllThreads w0) =
       run_completion (run K flushAllThreads w)) /\
  (int_neg e < 0 /\ Z.abs (int_neg e) = e <-> 1 <= e) /\
  (INT_MIN < e <= 0 -> 0 <= int_neg e).
Proof.
  intros Hk He.
  rewrite (run_flushAllThreads w _ _ _ Hk). cbn [run_completion].
  unfold result_of_outcome.
  change (int_of_long (-1) =? -1) with true. cbn match.
  split; [reflexivity |].
  split; [| split].
  - intros ->. split; [reflexivity |].
    intros w0 e0 w0' Hk0.
    rewrite (run_flushAllThreads w0 _ _ _ Hk0). reflexivity.
  - destruct (Z.eq_dec e INT_MIN) as [-> | Hne].
    + rewrite int_neg_INT_MIN. unfold INT_MIN. cbn. lia.
    + rewrite int_neg_exact by (unfold in_int in He; lia).
      lia.
  - intros Hrange. rewrite int_neg_exact by (unfold INT_MAX; lia). lia.
Qed.

(** C8.  For [errno] equal to [e] with [1 <= e <= 2^31 - 1], the value
    returned on failure is the exact opposite [- e]; it lies in the range
    of a 32-bit signed integer and the negation does not overflow. *)
Theorem flushAllThreads_negation_exact (w : W) (e : Z) (w' : W) :
  membarrier_outcome K w = (-1, e, w') ->
  1 <= e <= 2 ^ 31 - 1 ->
  run_completion (run K flushAllThreads w) = Returned (- e) /\
  int_neg e = - e /\
  - 2 ^ 31 <= - e <= 2 ^ 31 - 1 /\
  int_neg_overflows e = false.
Proof.
  intros Hk He.
  rewrite (run_flushAllThreads w _ _ _ Hk). cbn [run_completion].
  unfold result_of_outcome.
  change (int_of_long (-1) =? -1) with true. cbn match.
  assert (Hneg : int_neg e = - e)
    by (apply int_neg_exact; unfold INT_MIN, INT_MAX; lia).
  rewrite Hneg.
  split; [reflexivity |]. split; [reflexivity |]. split; [lia |].
  unfold int_neg_overflows.
  apply negb_false_iff, in_intb_spec.
  unfold in_int, INT_MIN, INT_MAX. lia.
Qed.

(** C9.  The native method takes nothing but the call context ([env],
    [clazz]), which it ignores: any two contexts give the same program.
    What it returns is a 32-bit signed integer. *)
Theorem flushAllThreads_signature (env' : JNIEnv) (clazz' : jclass) (w : W) :
  Java_nativecode_MemBarrier_flushAllThreads env' clazz' = flushAllThreads /\
  exists v : jint,
    run_completion (run K flushAllThreads w) = Returned v /\
    - 2 ^ 31 <= v <= 2 ^ 31 - 1.
Proof.
  split; [reflexivity |].
  destruct (membarrier_outcome_total w) as (r & e & w' & Hk).
  rewrite (run_flushAllThreads w _ _ _ Hk). cbn [run_completion].
  exists (result_of_outcome r e). split; [reflexivity |].
  apply result_of_outcome_range.
Qed.

End OneCall.

(** ** Calls from several threads *)

Section Threads.

Context {W : Type} (TK : tid -> Kernel W).
Hypothesis errno_local : errno_thread_local TK.

Lemma run_schedule_app {A : Type} (s1 s2 : list tid) (st : process W A) :
  run_schedule TK (s1 ++ s2) st = run_schedule TK s2 (run_schedule TK s1 st).
Proof.
  revert st. induction s1 as [| t s1 IH]; intros st; cbn.
  - reflexivity.
  - apply IH.
Qed.

Lemma events_of_snoc (t t' : tid) (ev : event) (l : list (tid * event)) :
  events_of t (l ++ [(t', ev)]) =
  events_of t l ++ (if Nat.eqb t' t then [ev] else []).
Proof.
  unfold events_of. rewrite filter_app, map_app. cbn.
  destruct (Nat.eqb t' t); reflexivity.
Qed.

(** A step of another thread leaves a thread's program, its events and
    its [errno] alone. *)
Lemma step_thread_other {A : Type} (t t' : tid) (st : process W A) :
  t' <> t ->
  pool (step_thread TK t' st) t = pool st t /\
  events_of t (log (step_thread TK t' st)) = events_of t (log st) /\
  read_errno (TK t) (world (step_thread TK t' st)) =
  read_errno (TK t) (world st).
Proof using errno_local.
  intros Hne. unfold step_thread.
  destruct (step_prog (TK t') (pool st t') (world st))
    as [[[p' ev] w'] |] eqn:Hstep; [| auto].
  cbn [pool log world].
  rewrite events_of_snoc.
  destruct (Nat.eqb_spec t t') as [-> | _]; [contradiction |].
  destruct (Nat.eqb_spec t' t) as [-> | _]; [contradiction |].
  rewrite app_nil_r.
  split; [reflexivity |]. split; [reflexivity |].
  unfold step_prog in Hstep.
  destruct (pool st t') as [a | n args k | k | k |]; try discriminate Hstep.
  - pose proof (errno_local t t' n args (world st) (not_eq_sym Hne)) as Hloc.
    destruct (do_syscall (TK t') n args (world st)) as [r0 w0].
    injection Hstep as _ _ <-. exact Hloc.
  - injection Hstep as _ _ <-. reflexivity.
  - injection Hstep as _ _ <-. reflexivity.
Qed.

Lemma run_schedule_absent {A : Type} (t : tid) (s : list tid)
    (st : process W A) :
  ~ In t s ->
  pool (run_schedule TK s st) t = pool st t /\
  events_of t (log (run_schedule TK s st)) = events_of t (log st).
Proof using errno_local.
  revert st. induction s as [| t' s IH]; intros st Hnin; cbn.
  - auto.
  - destruct (IH (step_thread TK t' st)) as [Hp He].
    { intros Hin. apply Hnin. now right. }
    destruct (step_thread_other t t' st) as (Hp' & He' & _).
    { intros ->. apply Hnin. now left. }
    rewrite Hp, He. auto.
Qed.

Variables (t : tid) (r e : Z).

Local Abbreviation awaiting := (awaiting_errno TK t r e).
Local Abbreviation returned := (has_returned t r e).

Lemma has_returned_step (t' : tid) (st : process W jint) :
  returned st -> returned (step_thread TK t' st).
Proof using errno_local.
  intros [Hp He]. destruct (Nat.eq_dec t' t) as [-> | Hne].
  - unfold step_thread. rewrite Hp. cbn. split; assumption.
  - destruct (step_thread_other t t' st Hne) as (Hp' & He' & _).
    split; congruence.
Qed.

Lemma has_returned_run (s : list tid) (st : process W jint) :
  returned st -> returned (run_schedule TK s st).
Proof using errno_local.
  revert st. induction s as [| t' s IH]; intros st H; cbn.
  - exact H.
  - apply IH, has_returned_step, H.
Qed.

Lemma awaiting_errno_step_own (st : process W jint) :
  awaiting st -> returned (step_thread TK t st).
Proof.
  intros (Hr & Hp & Herr & Hev).
  unfold has_returned, step_thread. rewrite Hp. cbn [step_prog pool log].
  rewrite events_of_snoc, Hev, Nat.eqb_refl, Herr.
  unfold result_of_outcome. rewrite Hr. cbn.
  split; reflexivity.
Qed.

Lemma awaiting_errno_step_other (t' : tid) (st : process W jint) :
  t' <> t -> awaiting st -> awaiting (step_thread TK t' st).
Proof using errno_local.
  intros Hne (Hr & Hp & Herr & Hev).
  destruct (step_thread_other t t' st Hne) as (Hp' & He' & Herr').
  repeat split; congruence.
Qed.

Lemma awaiting_errno_run (s : list tid) (st : process W jint) :
  awaiting st -> In t s -> returned (run_schedule TK s st).
Proof using errno_local.
  revert st. induction s as [| t' s IH]; intros st Haw Hin; cbn.
  - destruct Hin.
  - destruct (Nat.eq_dec t' t) as [-> | Hne].
    + apply has_returned_run, awaiting_errno_step_own, Haw.
    + apply IH.
      * apply awaiting_errno_step_other; assumption.
      * destruct Hin as [Heq | Hin]; [contradiction | exact Hin].
Qed.

(** C10.  Calls made by several threads, under any interleaving of their
    steps, with [errno] a per-thread object.  Take a thread [t] whose
    system call gets the answer [(r, e)] from the kernel at the moment it
    is made (after the steps [s1] of the other threads).  Whatever the
    other threads do before [t] runs again ([s2]), once [t] has been
    scheduled again it has returned [result_of_outcome r e], the value of
    its own outcome; it waited for no other thread, and all it did is its
    one system call and, on failure, a read of its own [errno]. *)
Theorem flushAllThreads_concurrent_calls
    (envs : tid -> JNIEnv) (clazz : jclass) (w0 : W)
    (s1 s2 : list tid) (w' : W) :
  ~ In t s1 ->
  In t s2 ->
  membarrier_outcome (TK t)
    (world (run_schedule TK s1 (all_calling envs clazz w0))) = (r, e, w') ->
  pool (run_schedule TK (s1 ++ t :: s2) (all_calling envs clazz w0)) t =
    Ret (result_of_outcome r e) /\
  events_of t
    (log (run_schedule TK (s1 ++ t :: s2) (all_calling envs clazz w0))) =
    membarrier_call :: (if int_of_long r =? -1 then [EvErrno] else []).
Proof using errno_local.
  intros Hnin Hin Hk.
  rewrite run_schedule_app. cbn [run_schedule].
  destruct (run_schedule_absent t s1 (all_calling envs clazz w0) Hnin)
    as [Hp Hev].
  set (st1 := run_schedule TK s1 (all_calling envs clazz w0)) in *.
  cbn [all_calling pool log] in Hp, Hev.
  unfold membarrier_outcome in Hk.
  assert (Hstep :
    step_thread TK t st1 =
    {| pool := fun t' =>
         if Nat.eqb t' t then
           if int_of_long r =? -1
           then Errno (fun e0 => Ret (int_neg e0))
           else Ret (int_of_long r)
         else pool st1 t';
       world := w';
       log := log st1 ++ [(t, membarrier_call)] |}).
  { unfold step_thread. rewrite Hp.
    unfold Java_nativecode_MemBarrier_flushAllThreads.
    cbn [bind syscall errno step_prog].
    destruct (do_syscall (TK t) SYS_membarrier [MEMBARRIER_CMD_SHARED; 0]
                (world st1)) as [r0 w1].
    injection Hk as -> _ ->.
    unfold membarrier_call.
    destruct (int_of_long r =? -1); reflexivity. }
  assert (Herr : read_errno (TK t) w' = e).
  { destruct (do_syscall (TK t) SYS_membarrier [MEMBARRIER_CMD_SHARED; 0]
                (world st1)) as [r0 w1].
    injection Hk as _ He ->. exact He. }
  change (returned (run_schedule TK s2 (step_thread TK t st1))).
  destruct (int_of_long r =? -1) eqn:Hr.
  - apply awaiting_errno_run; [| exact Hin].
    rewrite Hstep. unfold awaiting_errno. cbn [pool world log].
    rewrite events_of_snoc, Hev, !Nat.eqb_refl.
    apply Z.eqb_eq in Hr. auto.
  - apply has_returned_run.
    rewrite Hstep. unfold has_returned, result_of_outcome.
    cbn [pool world log].
    rewrite events_of_snoc, Hev, !Nat.eqb_refl, Hr. auto.
Qed.

End Threads.

(** ** What a caller can read off the returned value *)

Lemma int_neg_involutive (e : Z) : in_int e -> int_neg (int_neg e) = e.
Proof.
  intros He. destruct (Z.eq_dec e INT_MIN) as [-> | Hne].
  - reflexivity.
  - unfold in_int in He.
    rewrite (int_neg_exact e) by lia.
    rewrite int_neg_exact by (unfold INT_MIN, INT_MAX in *; lia).
    lia.
Qed.

Lemma wrap_int_periodic (z k : Z) : wrap_int (z + k * 2 ^ 32) = wrap_int z.
Proof.
  unfold wrap_int.
  replace (z + k * 2 ^ 32 + 2 ^ 31) with (z + 2 ^ 31 + k * 2 ^ 32) by lia.
  now rewrite Z.mod_add by lia.
Qed.

Section Encoding.

Context {W : Type} (K : Kernel W).
Variables (env : JNIEnv) (clazz : jclass).

Local Abbreviation flushAllThreads :=
  (Java_nativecode_MemBarrier_flushAllThreads env clazz).

(** X1.  On the failure path the caller gets [errno] back by negating the
    returned value as an [int]: this holds for every [errno] of type
    [int], zero, negative values and [INT_MIN] included. *)
Theorem flushAllThreads_errno_recovered (w : W) (e : Z) (w' : W) :
  membarrier_outcome K w = (-1, e, w') ->
  in_int e ->
  exists v : jint,
    run_completion (run K flushAllThreads w) = Returned v /\
    int_neg v = e.
Proof.
  intros Hk He.
  rewrite (run_flushAllThreads K env clazz w _ _ _ Hk). cbn [run_completion].
  exists (int_neg e). split; [reflexivity |].
  apply int_neg_involutive, He.
Qed.

(** X2.  Among the answers the convention of [syscall] allows, the
    returned value determines the answer: two calls that return the same
    value got the same value from [syscall] and, when that value is [-1],
    the same [errno]. *)
Theorem flushAllThreads_unambiguous
    (w1 w2 : W) (r1 e1 r2 e2 : Z) (w1' w2' : W) :
  membarrier_outcome K w1 = (r1, e1, w1') ->
  membarrier_outcome K w2 = (r2, e2, w2') ->
  conventional_answer r1 e1 ->
  conventional_answer r2 e2 ->
  run_completion (run K flushAllThreads w1) =
  run_completion (run K flushAllThreads w2) ->
  r1 = r2 /\ (r1 = -1 -> e1 = e2).
Proof.
  intros Hk1 Hk2 Ha1 Ha2.
  rewrite (run_flushAllThreads K env clazz w1 _ _ _ Hk1).
  rewrite (run_flushAllThreads K env clazz w2 _ _ _ Hk2).
  cbn [run_completion]. intros Heq. injection Heq as Heq.
  unfold result_of_outcome in Heq.
  assert (Hin : forall r e, conventional_answer r e -> in_int r).
  { unfold conventional_answer, in_int, INT_MIN, INT_MAX. intros r e H. lia. }
  rewrite (int_of_long_id r1 (Hin _ _ Ha1)) in Heq.
  rewrite (int_of_long_id r2 (Hin _ _ Ha2)) in Heq.
  unfold conventional_answer, INT_MAX in Ha1, Ha2.
  destruct (Z.eqb_spec r1 (-1)) as [H1 | H1];
    destruct (Z.eqb_spec r2 (-1)) as [H2 | H2].
  - rewrite !int_neg_exact in Heq by (unfold INT_MIN, INT_MAX; lia). lia.
  - rewrite int_neg_exact in Heq by (unfold INT_MIN, INT_MAX; lia). lia.
  - rewrite int_neg_exact in Heq by (unfold INT_MIN, INT_MAX; lia). lia.
  - lia.
Qed.

(** X3.  Outside that convention the value is ambiguous: a system call
    that hands back a negative [r] other than [-1] makes the call return
    what a failure with [errno = - r] returns. *)
Theorem flushAllThreads_negative_value_conflated
    (w1 w2 : W) (r e1 : Z) (w1' w2' : W) :
  membarrier_outcome K w1 = (r, e1, w1') ->
  membarrier_outcome K w2 = (-1, - r, w2') ->
  INT_MIN < r <= -2 ->
  run_completion (run K flushAllThreads w1) = Returned r /\
  run_completion (run K flushAllThreads w2) = Returned r.
Proof.
  intros Hk1 Hk2 Hr.
  rewrite (run_flushAllThreads K env clazz w1 _ _ _ Hk1).
  rewrite (run_flushAllThreads K env clazz w2 _ _ _ Hk2).
  cbn [run_completion]. unfold result_of_outcome.
  rewrite (int_of_long_id r) by (unfold in_int, INT_MAX; lia).
  change (int_of_long (-1) =? -1) with true. cbn match.
  destruct (Z.eqb_spec r (-1)) as [H | _]; [lia |].
  rewrite int_neg_exact by (unfold INT_MIN, INT_MAX in *; lia).
  split; f_equal; lia.
Qed.

(** X4.  The call returns [-1] in one case only: the system call failed
    and [errno] is [1].  A returned [-1] is an error number like the
    others, not the bare failure mark of [syscall]. *)
Theorem flushAllThreads_minus_one_iff (w : W) (r e : Z) (w' : W) :
  membarrier_outcome K w = (r, e, w') ->
  in_int r ->
  in_int e ->
  (run_completion (run K flushAllThreads w) = Returned (-1) <->
   r = -1 /\ e = 1).
Proof.
  intros Hk Hr He.
  rewrite (run_flushAllThreads K env clazz w _ _ _ Hk). cbn [run_completion].
  unfold result_of_outcome. rewrite (int_of_long_id r Hr).
  destruct (Z.eqb_spec r (-1)) as [H | H].
  - split.
    + intros Heq. injection Heq as Heq.
      apply (f_equal int_neg) in Heq.
      rewrite (int_neg_involutive e He) in Heq.
      split; [exact H | rewrite Heq; reflexivity].
    + intros [_ ->]. reflexivity.
  - split.
    + intros Heq. injection Heq as Heq. contradiction.
    + intros [Hc _]. contradiction.
Qed.

(** X5.  Only the low 32 bits of what [syscall] hands back count: two
    values that differ by a multiple of 2^32 give the same returned value
    under the same [errno]. *)
Theorem flushAllThreads_low_32_bits
    (w1 w2 : W) (r k e : Z) (w1' w2' : W) :
  membarrier_outcome K w1 = (r, e, w1') ->
  membarrier_outcome K w2 = (r + k * 2 ^ 32, e, w2') ->
  run_completion (run K flushAllThreads w2) =
  run_completion (run K flushAllThreads w1).
Proof.
  intros Hk1 Hk2.
  rewrite (run_flushAllThreads K env clazz w1 _ _ _ Hk1).
  rewrite (run_flushAllThreads K env clazz w2 _ _ _ Hk2).
  cbn [run_completion]. unfold result_of_outcome, int_of_long.
  now rewrite wrap_int_periodic.
Qed.

End Encoding.

(** ** Calls in a row, as one program *)


Section Sequence.

Context {W : Type} (K : Kernel W).
Variables (env : JNIEnv) (clazz : jclass).






End Sequence.

(** ** Threads under any schedule *)

Section Progress.

Context {W : Type} (TK : tid -> Kernel W).
Variables (envs : tid -> JNIEnv) (clazz : jclass) (t : tid).

Local Abbreviation phase := (thread_phase envs clazz t).

Lemma step_thread_other_thread {A : Type} (t' : tid) (st : process W A) :
  t' <> t ->
  pool (step_thread TK t' st) t = pool st t /\
  events_of t (log (step_thread TK t' st)) = events_of t (log st).
Proof.
  intros Hne. unfold step_thread.
  destruct (step_prog (TK t') (pool st t') (world st))
    as [[[p' ev] w'] |]; [| auto].
  cbn [pool log]. rewrite events_of_snoc.
  destruct (Nat.eqb_spec t t') as [-> | _]; [contradiction |].
  destruct (Nat.eqb_spec t' t) as [-> | _]; [contradiction |].
  now rewrite app_nil_r.
Qed.

Lemma thread_phase_ext (k : nat) (st st' : process W jint) :
  pool st' t = pool st t ->
  events_of t (log st') = events_of t (log st) ->
  phase k st -> phase k st'.
Proof.
  intros Hp He. unfold thread_phase.
  destruct k as [| [| k]]; rewrite Hp, He; exact (fun H => H).
Qed.

Lemma thread_phase_own_turn (k : nat) (st : process W jint) :
  phase k st -> phase (S k) (step_thread TK t st).
Proof.
  unfold thread_phase, step_thread. destruct k as [| [| k]].
  - intros [Hp He]. rewrite Hp.
    unfold Java_nativecode_MemBarrier_flushAllThreads.
    cbn [bind syscall errno step_prog].
    destruct (do_syscall (TK t) SYS_membarrier [MEMBARRIER_CMD_SHARED; 0]
                (world st)) as [r0 w0].
    cbn [pool log]. rewrite events_of_snoc, He, !Nat.eqb_refl.
    split; [reflexivity |].
    destruct (int_of_long r0 =? -1); [left; reflexivity | right; eauto].
  - intros [He [Hp | [v Hp]]]; rewrite Hp; cbn [step_prog pool log].
    + rewrite events_of_snoc, He, !Nat.eqb_refl. split; [eauto | now right].
    + split; [eauto | now left].
  - intros [[v Hp] He]. rewrite Hp. cbn [step_prog]. split; [eauto | exact He].
Qed.

Lemma thread_phase_run (s : list tid) (k : nat) (st : process W jint) :
  phase k st ->
  phase (k + count_occ Nat.eq_dec s t) (run_schedule TK s st).
Proof.
  revert k st. induction s as [| t' s IH]; intros k st H.
  - cbn. now rewrite Nat.add_0_r.
  - cbn [run_schedule count_occ].
    destruct (Nat.eq_dec t' t) as [-> | Hne].
    + rewrite Nat.add_succ_r. apply (IH (S k)), thread_phase_own_turn, H.
    + apply IH.
      destruct (step_thread_other_thread t' st Hne) as [Hp He].
      exact (thread_phase_ext k st _ Hp He H).
Qed.

Lemma all_calling_phase (w0 : W) : phase 0 (all_calling envs clazz w0).
Proof. split; reflexivity. Qed.

(** X7.  Whatever the schedule and whatever the kernel does with
    [errno], a thread never does more than its one [membarrier] request
    and one read of [errno]: at any moment its events are none, the
    request, or the request followed by the read. *)
Theorem thread_events_bounded (w0 : W) (s : list tid) :
  events_of t (log (run_schedule TK s (all_calling envs clazz w0))) = [] \/
  events_of t (log (run_schedule TK s (all_calling envs clazz w0))) =
    [membarrier_call] \/
  events_of t (log (run_schedule TK s (all_calling envs clazz w0))) =
    [membarrier_call; EvErrno].
Proof.
  pose proof (thread_phase_run s 0 _ (all_calling_phase w0)) as H.
  unfold thread_phase in H.
  destruct (0 + count_occ Nat.eq_dec s t)%nat as [| [| k]].
  - left. apply H.
  - right. left. apply H.
  - right. destruct H as [_ [H | H]]; [left | right]; exact H.
Qed.

(** X8.  A thread that has had two turns has returned, whatever the other
    threads did in between and however often they ran: it waits for
    nobody. *)
Theorem thread_returns_after_two_turns (w0 : W) (s : list tid) :
  (2 <= count_occ Nat.eq_dec s t)%nat ->
  exists v : jint,
    pool (run_schedule TK s (all_calling envs clazz w0)) t = Ret v.
Proof.
  intros Hc.
  pose proof (thread_phase_run s 0 _ (all_calling_phase w0)) as H.
  unfold thread_phase in H.
  destruct (0 + count_occ Nat.eq_dec s t)%nat as [| [| k]] eqn:Hk;
    [lia | lia |].
  apply H.
Qed.

End Progress.

End MemBarrier.

(** ** The theorems at work on x86-64, against scripted kernels *)

Local Abbreviation SYS := x86_64_SYS_membarrier.
Local Abbreviation CMD := linux_MEMBARRIER_CMD_SHARED.
Local Abbreviation flush_x86_64 :=
  (Java_nativecode_MemBarrier_flushAllThreads SYS CMD unit unit tt tt).

Lemma scripted_thread_kernel_local :
  errno_thread_local scripted_thread_kernel.
Proof.
  intros t t' n args w Hne. cbn.
  destruct (shared_script w) as [| [r e] rest]; cbn; [reflexivity |].
  destruct (Nat.eqb_spec t t') as [Heq | _]; [contradiction | reflexivity].
Qed.

(** The hypothesis on [errno] carries weight: with a process-wide [errno]
    the same schedule as in the last lemma of this file makes thread [0]
    return the error number of thread [1]. *)
Remark process_wide_errno_not_local :
  ~ errno_thread_local process_wide_errno_kernel /\
  pool (run_schedule process_wide_errno_kernel [0%nat; 1%nat; 0%nat]
          (all_calling SYS CMD unit unit (fun _ => tt) tt
             (facing [(-1, ENOSYS); (-1, EPERM)]))) 0%nat =
    Ret (- EPERM).
Proof.
  split; [| reflexivity].
  intros Hloc.
  specialize (Hloc 0%nat 1%nat SYS [CMD; 0] (facing [(-1, ENOSYS)])
                ltac:(discriminate)).
  discriminate Hloc.
Qed.

(** The kernel lacks [membarrier]: [-1] with [errno = ENOSYS]. *)
Lemma flushAllThreads_failure_negated_errno_witness :
  membarrier_outcome SYS CMD scripted_kernel (facing [(-1, ENOSYS)]) =
    (-1, ENOSYS, {| cur_errno := ENOSYS; script := [] |}) /\
  1 <= ENOSYS <= INT_MAX /\
  exists v : jint,
    run_completion (run scripted_kernel flush_x86_64 (facing [(-1, ENOSYS)]))
      = Returned v /\
    run_pending_exception
      (run scripted_kernel flush_x86_64 (facing [(-1, ENOSYS)])) = false /\
    v = - ENOSYS /\ v < 0 /\ Z.abs v = ENOSYS.
Proof.
  assert (Hk : membarrier_outcome SYS CMD scripted_kernel
                 (facing [(-1, ENOSYS)]) =
               (-1, ENOSYS, {| cur_errno := ENOSYS; script := [] |}))
    by reflexivity.
  assert (He : 1 <= ENOSYS <= INT_MAX) by (unfold ENOSYS, INT_MAX; lia).
  split; [exact Hk |]. split; [exact He |].
  exact (flushAllThreads_failure_negated_errno SYS CMD unit unit
           scripted_kernel tt tt _ _ _ Hk He).
Defined.

(** The barrier is carried out: [0]. *)
Lemma flushAllThreads_success_passthrough_witness :
  membarrier_outcome SYS CMD scripted_kernel (facing [(0, 0)]) =
    (0, 0, {| cur_errno := 0; script := [] |}) /\
  0 <= 0 <= INT_MAX /\
  exists v : jint,
    run_completion (run scripted_kernel flush_x86_64 (facing [(0, 0)]))
      = Returned v /\
    v = 0 /\ 0 <= v.
Proof.
  assert (Hk : membarrier_outcome SYS CMD scripted_kernel (facing [(0, 0)]) =
               (0, 0, {| cur_errno := 0; script := [] |}))
    by reflexivity.
  assert (Hr : 0 <= 0 <= INT_MAX) by (unfold INT_MAX; lia).
  split; [exact Hk |]. split; [exact Hr |].
  exact (flushAllThreads_success_passthrough SYS CMD unit unit
           scripted_kernel tt tt _ _ _ _ Hk Hr).
Defined.

(** A negative value other than [-1] goes through as it is. *)
Lemma flushAllThreads_error_path_iff_witness :
  membarrier_outcome SYS CMD scripted_kernel (facing [(-2, EPERM)]) =
    (-2, EPERM, {| cur_errno := EPERM; script := [] |}) /\
  int_of_long (-2) <> -1 /\
  run_completion (run scripted_kernel flush_x86_64 (facing [(-2, EPERM)]))
    = Returned (-2) /\
  run_trace (run scripted_kernel flush_x86_64 (facing [(-2, EPERM)]))
    = [membarrier_call SYS CMD].
Proof.
  assert (Hk : membarrier_outcome SYS CMD scripted_kernel
                 (facing [(-2, EPERM)]) =
               (-2, EPERM, {| cur_errno := EPERM; script := [] |}))
    by reflexivity.
  assert (Hne : int_of_long (-2) <> -1) by (vm_compute; discriminate).
  split; [exact Hk |]. split; [exact Hne |].
  exact (proj1 (proj2 (proj2
           (flushAllThreads_error_path_iff SYS CMD unit unit
              scripted_kernel tt tt _ _ _ _ Hk))) Hne).
Defined.

(** C6 as first stated, on the value [syscall] hands back, fails where
    that value does not fit an [int].  [syscall] hands back [2^32 - 1],
    which is not [-1]; stored in [ret] it is [-1], so [errno] is read and
    the call returns [- ENOSYS], not the value handed back. *)
Lemma flushAllThreads_error_path_iff_counterexample :
  membarrier_outcome SYS CMD scripted_kernel (facing [(4294967295, ENOSYS)]) =
    (4294967295, ENOSYS, {| cur_errno := ENOSYS; script := [] |}) /\
  4294967295 <> -1 /\
  In EvErrno
    (run_trace
       (run scripted_kernel flush_x86_64 (facing [(4294967295, ENOSYS)]))) /\
  run_completion
    (run scripted_kernel flush_x86_64 (facing [(4294967295, ENOSYS)])) =
    Returned (- ENOSYS) /\
  run_completion
    (run scripted_kernel flush_x86_64 (facing [(4294967295, ENOSYS)])) <>
    Returned 4294967295.
Proof.
  split; [reflexivity |].
  split; [discriminate |].
  split; [right; left; reflexivity |].
  split; [reflexivity |].
  vm_compute. discriminate.
Qed.

(** [-1] with [errno] at [0]. *)
Lemma flushAllThreads_failure_errno_zero_witness :
  membarrier_outcome SYS CMD scripted_kernel (facing [(-1, 0)]) =
    (-1, 0, {| cur_errno := 0; script := [] |}) /\
  in_int 0 /\
  run_completion (run scripted_kernel flush_x86_64 (facing [(-1, 0)]))
    = Returned 0 /\
  run_completion (run scripted_kernel flush_x86_64 (facing [(0, 0)]))
    = run_completion (run scripted_kernel flush_x86_64 (facing [(-1, 0)])).
Proof.
  assert (Hk : membarrier_outcome SYS CMD scripted_kernel (facing [(-1, 0)]) =
               (-1, 0, {| cur_errno := 0; script := [] |}))
    by reflexivity.
  assert (He : in_int 0) by (unfold in_int, INT_MIN, INT_MAX; lia).
  split; [exact Hk |]. split; [exact He |].
  destruct (flushAllThreads_failure_errno_zero SYS CMD unit unit
              scripted_kernel tt tt _ _ _ Hk He) as (_ & Hzero & _).
  destruct (Hzero eq_refl) as [Hret Hsame].
  split; [exact Hret |].
  apply (Hsame (facing [(0, 0)]) 0 {| cur_errno := 0; script := [] |}).
  reflexivity.
Defined.

(** The largest error number an [int] can hold. *)
Lemma flushAllThreads_negation_exact_witness :
  membarrier_outcome SYS CMD scripted_kernel (facing [(-1, 2147483647)]) =
    (-1, 2147483647, {| cur_errno := 2147483647; script := [] |}) /\
  1 <= 2147483647 <= 2 ^ 31 - 1 /\
  run_completion
    (run scripted_kernel flush_x86_64 (facing [(-1, 2147483647)]))
    = Returned (- 2147483647) /\
  int_neg 2147483647 = - 2147483647 /\
  - 2 ^ 31 <= - 2147483647 <= 2 ^ 31 - 1 /\
  int_neg_overflows 2147483647 = false.
Proof.
  assert (Hk : membarrier_outcome SYS CMD scripted_kernel
                 (facing [(-1, 2147483647)]) =
               (-1, 2147483647, {| cur_errno := 2147483647; script := [] |}))
    by reflexivity.
  assert (He : 1 <= 2147483647 <= 2 ^ 31 - 1) by lia.
  split; [exact Hk |]. split; [exact He |].
  exact (flushAllThreads_negation_exact SYS CMD unit unit
           scripted_kernel tt tt _ _ _ Hk He).
Defined.

(** Two threads, both refused.  Thread [0] makes its system call
    ([ENOSYS]), thread [1] makes its own ([EPERM]) before thread [0] gets
    to read [errno]; thread [0] still returns [- ENOSYS]. *)
Lemma flushAllThreads_concurrent_calls_witness :
  errno_thread_local scripted_thread_kernel /\
  ~ In 0%nat [] /\
  In 0%nat [1%nat; 0%nat] /\
  pool (run_schedule scripted_thread_kernel ([] ++ 0%nat :: [1%nat; 0%nat])
          (all_calling SYS CMD unit unit (fun _ => tt) tt
             (threads_facing [(-1, ENOSYS); (-1, EPERM)]))) 0%nat =
    Ret (- ENOSYS) /\
  events_of 0%nat
    (log (run_schedule scripted_thread_kernel ([] ++ 0%nat :: [1%nat; 0%nat])
            (all_calling SYS CMD unit unit (fun _ => tt) tt
               (threads_facing [(-1, ENOSYS); (-1, EPERM)])))) =
    [membarrier_call SYS CMD; EvErrno].
Proof.
  assert (Hnin : ~ In 0%nat (@nil tid)) by (intros []).
  assert (Hin : In 0%nat [1%nat; 0%nat]) by (right; left; reflexivity).
  split; [exact scripted_thread_kernel_local |].
  split; [exact Hnin |]. split; [exact Hin |].
  apply (flushAllThreads_concurrent_calls SYS CMD unit unit
           scripted_thread_kernel scripted_thread_kernel_local
           0%nat (-1) ENOSYS (fun _ => tt) tt
           (threads_facing [(-1, ENOSYS); (-1, EPERM)])
           [] [1%nat; 0%nat]
           {| errno_of := fun t' => if Nat.eqb t' 0 then ENOSYS else 0;
              shared_script := [(-1, EPERM)] |}
           Hnin Hin).
  reflexivity.
Defined.

(** [errno] at [INT_MIN], where the negation wraps: negating the returned
    value still gives [errno] back. *)
Lemma flushAllThreads_errno_recovered_witness :
  membarrier_outcome SYS CMD scripted_kernel (facing [(-1, INT_MIN)]) =
    (-1, INT_MIN, {| cur_errno := INT_MIN; script := [] |}) /\
  in_int INT_MIN /\
  exists v : jint,
    run_completion (run scripted_kernel flush_x86_64 (facing [(-1, INT_MIN)]))
      = Returned v /\
    int_neg v = INT_MIN.
Proof.
  assert (Hk : membarrier_outcome SYS CMD scripted_kernel
                 (facing [(-1, INT_MIN)]) =
               (-1, INT_MIN, {| cur_errno := INT_MIN; script := [] |}))
    by reflexivity.
  assert (He : in_int INT_MIN) by (unfold in_int, INT_MIN, INT_MAX; lia).
  split; [exact Hk |]. split; [exact He |].
  exact (flushAllThreads_errno_recovered SYS CMD unit unit
           scripted_kernel tt tt _ _ _ Hk He).
Defined.

(** Two refusals with the same error number, in two different worlds. *)
Lemma flushAllThreads_unambiguous_witness :
  conventional_answer (-1) ENOSYS /\
  run_completion (run scripted_kernel flush_x86_64 (facing [(-1, ENOSYS)])) =
  run_completion
    (run scripted_kernel flush_x86_64 (facing [(-1, ENOSYS); (0, 0)])) /\
  (-1 = -1 /\ (-1 = -1 -> ENOSYS = ENOSYS)).
Proof.
  assert (Ha : conventional_answer (-1) ENOSYS)
    by (right; unfold ENOSYS, INT_MAX; lia).
  assert (Hrun :
    run_completion (run scripted_kernel flush_x86_64 (facing [(-1, ENOSYS)])) =
    run_completion
      (run scripted_kernel flush_x86_64 (facing [(-1, ENOSYS); (0, 0)])))
    by reflexivity.
  split; [exact Ha |]. split; [exact Hrun |].
  exact (flushAllThreads_unambiguous SYS CMD unit unit scripted_kernel tt tt
           (facing [(-1, ENOSYS)]) (facing [(-1, ENOSYS); (0, 0)])
           (-1) ENOSYS (-1) ENOSYS
           {| cur_errno := ENOSYS; script := [] |}
           {| cur_errno := ENOSYS; script := [(0, 0)] |}
           eq_refl eq_refl Ha Ha Hrun).
Defined.

(** [syscall] handing back [-38] itself, against a refusal with
    [ENOSYS]. *)
Lemma flushAllThreads_negative_value_conflated_witness :
  INT_MIN < -38 <= -2 /\
  run_completion (run scripted_kernel flush_x86_64 (facing [(-38, 0)])) =
    Returned (-38) /\
  run_completion (run scripted_kernel flush_x86_64 (facing [(-1, ENOSYS)])) =
    Returned (-38).
Proof.
  assert (Hr : INT_MIN < -38 <= -2) by (unfold INT_MIN; lia).
  split; [exact Hr |].
  exact (flushAllThreads_negative_value_conflated SYS CMD unit unit
           scripted_kernel tt tt
           (facing [(-38, 0)]) (facing [(-1, ENOSYS)]) (-38) 0
           {| cur_errno := 0; script := [] |}
           {| cur_errno := ENOSYS; script := [] |}
           eq_refl eq_refl Hr).
Defined.

(** A refusal with [EPERM]. *)
Lemma flushAllThreads_minus_one_iff_witness :
  in_int (-1) /\
  in_int EPERM /\
  (run_completion (run scripted_kernel flush_x86_64 (facing [(-1, EPERM)])) =
     Returned (-1) <->
   -1 = -1 /\ EPERM = 1).
Proof.
  assert (Hr : in_int (-1)) by (unfold in_int, INT_MIN, INT_MAX; lia).
  assert (He : in_int EPERM) by (unfold in_int, EPERM, INT_MIN, INT_MAX; lia).
  split; [exact Hr |]. split; [exact He |].
  exact (flushAllThreads_minus_one_iff SYS CMD unit unit scripted_kernel tt tt
           (facing [(-1, EPERM)]) (-1) EPERM
           {| cur_errno := EPERM; script := [] |}
           eq_refl Hr He).
Defined.

(** [2^32 - 1] in a 64-bit [long] against [-1]. *)
Lemma flushAllThreads_low_32_bits_witness :
  membarrier_outcome SYS CMD scripted_kernel (facing [(4294967295, ENOSYS)]) =
    (-1 + 1 * 2 ^ 32, ENOSYS, {| cur_errno := ENOSYS; script := [] |}) /\
  run_completion
    (run scripted_kernel flush_x86_64 (facing [(4294967295, ENOSYS)])) =
  run_completion (run scripted_kernel flush_x86_64 (facing [(-1, ENOSYS)])).
Proof.
  assert (Hk2 : membarrier_outcome SYS CMD scripted_kernel
                  (facing [(4294967295, ENOSYS)]) =
                (-1 + 1 * 2 ^ 32, ENOSYS,
                 {| cur_errno := ENOSYS; script := [] |}))
    by reflexivity.
  split; [exact Hk2 |].
  exact (flushAllThreads_low_32_bits SYS CMD unit unit scripted_kernel tt tt
           (facing [(-1, ENOSYS)]) (facing [(4294967295, ENOSYS)])
           (-1) 1 ENOSYS
           {| cur_errno := ENOSYS; script := [] |}
           {| cur_errno := ENOSYS; script := [] |}
           eq_refl Hk2).
Defined.

(** Thread [0] runs, thread [1] runs, thread [0] runs again. *)
Lemma thread_returns_after_two_turns_witness :
  (2 <= count_occ Nat.eq_dec [0%nat; 1%nat; 0%nat] 0%nat)%nat /\
  exists v : jint,
    pool (run_schedule scripted_thread_kernel [0%nat; 1%nat; 0%nat]
            (all_calling SYS CMD unit unit (fun _ => tt) tt
               (threads_facing [(-1, ENOSYS); (-1, EPERM)]))) 0%nat = Ret v.
Proof.
  assert (Hc : (2 <= count_occ Nat.eq_dec [0%nat; 1%nat; 0%nat] 0%nat)%nat)
    by (cbn; lia).
  split; [exact Hc |].
  exact (thread_returns_after_two_turns SYS CMD unit unit
           scripted_thread_kernel (fun _ => tt) tt 0%nat
           (threads_facing [(-1, ENOSYS); (-1, EPERM)])
           [0%nat; 1%nat; 0%nat] Hc).
Defined.
